(** * vale_docs_checker: a shallow embedding and its checked properties

    The program walks a directory, runs a linter command on every file,
    parses the linter's text output into issue records and prints a
    grouped report.  This file embeds [vale_docs_checker.py] function by
    function and proves the properties of its specification.

    Conventions of the embedding:
    - a Python [str] is a list of Unicode code points ([N]);
    - the character classes of [re] and [str.strip] are the interpreter's
      ([Py_UNICODE_ISSPACE], [Py_UNICODE_TODECIMAL], [Py_UNICODE_ISALNUM]):
      the ASCII part and the white-space table are written out, the
      decimal-digit and alphanumeric tables above U+007F are the Section
      variables [unicode_decimal] and [unicode_alnum];
    - the regular expressions are data ([pattern]) run by a backtracking
      matcher ([exec]) with greedy quantifiers, as [re] runs them;
    - [while] loops over an index keep the index; the loop is iterated with
      fuel [len(lines)]; [while_loop_exits] shows the loop leaves through
      its own test, never through the fuel, and [while_loop_fuel] that more
      fuel changes nothing;
    - [int] is modelled without the interpreter's optional limit on the
      number of digits. *)

From Stdlib Require Import List NArith Bool Arith Lia String Ascii.
From Stdlib Require Import Permutation Sorted.
Import ListNotations.
Local Open Scope string_scope.
Local Open Scope list_scope.

(** ** Python strings *)

Definition char := N.
Definition str := list char.

(** An ASCII literal of the source as a [str]. *)
Definition lit (s : string) : str := map N_of_ascii (list_ascii_of_string s).

Definition str_eqb (a b : str) : bool :=
  if list_eq_dec N.eq_dec a b then true else false.

Definition is_nil {A} (l : list A) : bool :=
  match l with [] => true | _ :: _ => false end.

(** [bool(s)] of a string: non-empty. *)
Definition truthy (s : str) : bool := negb (is_nil s).

Definition in_range (lo hi c : N) : bool := ((lo <=? c) && (c <=? hi))%N.

(** [Py_UNICODE_ISSPACE]: the white space of [str.strip] and of [\s]. *)
Definition py_isspace (c : char) : bool :=
  in_range 9 13 c || in_range 28 32 c || (c =? 133)%N || (c =? 160)%N
  || (c =? 5760)%N || in_range 8192 8202 c || (c =? 8232)%N || (c =? 8233)%N
  || (c =? 8239)%N || (c =? 8287)%N || (c =? 12288)%N.

Definition ascii_alpha (c : char) : bool := in_range 65 90 c || in_range 97 122 c.
Definition ascii_digit (c : char) : bool := in_range 48 57 c.

Fixpoint lstrip (s : str) : str :=
  match s with
  | c :: t => if py_isspace c then lstrip t else s
  | [] => []
  end.

Definition rstrip (s : str) : str := rev (lstrip (rev s)).

(** [s.strip()] *)
Definition strip (s : str) : str := rstrip (lstrip s).

Fixpoint startswith (pre s : str) : bool :=
  match pre, s with
  | [], _ => true
  | a :: pre', b :: s' => (a =? b)%N && startswith pre' s'
  | _ :: _, [] => false
  end.

Definition endswith (suf s : str) : bool := startswith (rev suf) (rev s).

(** [s.split(sep)] for a one-character separator: never the empty list. *)
Fixpoint split (sep : char) (s : str) : list str :=
  match s with
  | [] => [[]]
  | c :: t =>
      if (c =? sep)%N then [] :: split sep t
      else match split sep t with
           | h :: r => (c :: h) :: r
           | [] => [[c]]
           end
  end.

(** [sep.join(parts)] *)
Fixpoint join (sep : str) (parts : list str) : str :=
  match parts with
  | [] => []
  | [p] => p
  | p :: ps => p ++ sep ++ join sep ps
  end.


(** The string starts with a character that is not white space. *)
Definition solid_head (s : str) : bool :=
  match s with
  | c :: _ => negb (py_isspace c)
  | [] => false
  end.

(** Tables with nothing above U+007F, for the closed examples below (their
    inputs are ASCII, so the tables are never consulted). *)
Definition no_unicode_decimal : char -> option N := fun _ => None.
Definition no_unicode_alnum : char -> bool := fun _ => false.

Section Checker.

(** The interpreter's Unicode tables above U+007F: the decimal value of a
    decimal digit, and the alphanumeric test. *)
Variable unicode_decimal : char -> option N.
Variable unicode_alnum : char -> bool.

(** [Py_UNICODE_TODECIMAL] *)
Definition decimal_value (c : char) : option N :=
  if (c <? 128)%N then (if ascii_digit c then Some (c - 48)%N else None)
  else unicode_decimal c.

(** [\d] *)
Definition digit (c : char) : bool :=
  match decimal_value c with Some _ => true | None => false end.

(** [\w]: alphanumeric or the underscore. *)
Definition word (c : char) : bool :=
  if (c <? 128)%N then ascii_alpha c || ascii_digit c || (c =? 95)%N
  else unicode_alnum c || digit c.

(** [\s] *)
Definition space : char -> bool := py_isspace.

(** [.] (without DOTALL): anything but a newline. *)
Definition dot (c : char) : bool := negb (c =? 10)%N.

Definition is_char (x : N) (c : char) : bool := (c =? x)%N.

(** [int(s)] on a string of decimal digits; [None] is [ValueError].  (The
    signs, underscores and blanks [int] also accepts cannot occur in a
    [\d+] capture, the only argument it gets here.) *)
Fixpoint int_from (acc : N) (s : str) : option N :=
  match s with
  | [] => Some acc
  | c :: t =>
      match decimal_value c with
      | Some d => int_from (acc * 10 + d)%N t
      | None => None
      end
  end.

Definition int (s : str) : option N :=
  match s with
  | [] => None
  | _ :: _ => int_from 0%N s
  end.

(** ** Regular expressions *)

Inductive item : Type :=
| Bos                                  (* ^ *)
| Eos                                  (* $ *)
| Chr (p : char -> bool)               (* one character of a class *)
| Rep (p : char -> bool) (lo : nat)    (* p{lo,}, greedy: p* is lo = 0, p+ is lo = 1 *)
| Cap (p : char -> bool) (lo : nat).   (* (p{lo,}), greedy, a capture group *)

Definition pattern := list item.

(** A greedy repetition of the class [p], at least [lo] times: the longest
    run first, then shorter ones while the continuation [k] fails.  [acc]
    is the text taken so far, reversed. *)
Fixpoint greedy {R} (p : char -> bool) (k : str -> str -> option R)
    (lo : nat) (acc s : str) : option R :=
  let here := match lo with O => k (rev acc) s | S _ => None end in
  match s with
  | c :: t =>
      if p c then
        match greedy p k (pred lo) (c :: acc) t with
        | Some r => Some r
        | None => here
        end
      else here
  | [] => here
  end.

(** [$]: the end of the subject, or just before a newline that ends it. *)
Definition at_end (s : str) : bool :=
  match s with
  | [] => true
  | [c] => (c =? 10)%N
  | _ :: _ :: _ => false
  end.

(** The matcher: the pattern against a prefix of [s]; [bol] says whether
    the position is the start of the subject.  The result is the captured
    groups and the text left after the match. *)
Fixpoint exec (pat : pattern) (bol : bool) (s : str) : option (list str * str) :=
  match pat with
  | [] => Some ([], s)
  | Bos :: pat' => if bol then exec pat' bol s else None
  | Eos :: pat' => if at_end s then exec pat' bol s else None
  | Chr p :: pat' =>
      match s with
      | c :: t => if p c then exec pat' false t else None
      | [] => None
      end
  | Rep p lo :: pat' =>
      greedy p (fun txt rest => exec pat' (bol && is_nil txt) rest) lo [] s
  | Cap p lo :: pat' =>
      greedy p (fun txt rest =>
                  match exec pat' (bol && is_nil txt) rest with
                  | Some (gs, r) => Some (txt :: gs, r)
                  | None => None
                  end) lo [] s
  end.


(** [re.match(pat, s)]: the groups, or [None]. *)
Definition re_match (pat : pattern) (s : str) : option (list str) :=
  match exec pat true s with
  | Some (gs, _) => Some gs
  | None => None
  end.

(** A pattern with alternatives [A|B]: the first that matches. *)
Fixpoint exec_alt (alts : list pattern) (bol : bool) (s : str) : option (list str * str) :=
  match alts with
  | [] => None
  | pat :: alts' =>
      match exec pat bol s with
      | Some r => Some r
      | None => exec_alt alts' bol s
      end
  end.

(** [re.sub(alts, repl, s)], [repl] a function of the matched text.  The
    subject is scanned from left to right; after a match of [n] characters
    the scan resumes [n] characters further ([skip] counts those still
    to pass over).  An empty match puts [repl] before the character and
    moves on by one. *)
Fixpoint sub_from (alts : list pattern) (repl : str -> str)
    (bol : bool) (skip : nat) (s : str) : str :=
  match skip with
  | S n =>
      match s with
      | [] => []
      | _ :: t => sub_from alts repl false n t
      end
  | O =>
      match exec_alt alts bol s with
      | Some (_, rest) =>
          let n := List.length s - List.length rest in
          repl (firstn n s) ++
          match s with
          | [] => []
          | c :: t =>
              match n with
              | O => c :: sub_from alts repl false 0 t
              | S n' => sub_from alts repl false n' t
              end
          end
      | None =>
          match s with
          | [] => []
          | c :: t => c :: sub_from alts repl false 0 t
          end
      end
  end.

Definition re_sub (alts : list pattern) (repl : str -> str) (s : str) : str :=
  sub_from alts repl true 0 s.

(** [re.split(pat, s)] for a pattern that cannot match the empty string:
    the pieces between the matches, [cur] being the piece under
    construction, reversed. *)
Fixpoint split_from (pat : pattern) (bol : bool) (skip : nat)
    (cur : str) (s : str) : list str :=
  match skip with
  | S n =>
      match s with
      | [] => [rev cur]
      | _ :: t => split_from pat false n cur t
      end
  | O =>
      match s with
      | [] => [rev cur]
      | c :: t =>
          match exec pat bol s with
          | Some (_, rest) =>
              match List.length s - List.length rest with
              | O => split_from pat false 0 (c :: cur) t
              | S n' => rev cur :: split_from pat false n' [] t
              end
          | None => split_from pat false 0 (c :: cur) t
          end
      end
  end.

Definition re_split (pat : pattern) (s : str) : list str :=
  split_from pat true 0 [] s.

(** ** [strip_ansi_codes] *)

(** [\x1b\[[0-9;]*[a-zA-Z]|\x1b\[\d+m] *)
Definition ansi_pattern : list pattern :=
  [ [Chr (is_char 27); Chr (is_char 91);
     Rep (fun c => ascii_digit c || is_char 59 c) 0; Chr ascii_alpha];
    [Chr (is_char 27); Chr (is_char 91); Rep digit 1; Chr (is_char 109)] ].

Definition strip_ansi_codes (text : str) : str :=
  re_sub ansi_pattern (fun _ => []) text.

(** ** [parse_vale_output] *)

(** A row of the returned DataFrame. *)
Record IssueRecord := {
  filename : option str;
  line : N;
  col : N;
  error_type : str;
  error_msg : str;
  check_name : str
}.

(** The six lists the parser fills, one per column. *)
Record columns := {
  filenames : list (option str);
  line_nums : list N;
  col_nums : list N;
  error_types : list str;
  error_msgs : list str;
  check_names : list str
}.

Definition no_columns : columns :=
  {| filenames := []; line_nums := []; col_nums := [];
     error_types := []; error_msgs := []; check_names := [] |}.

Inductive exn := ValueError.

Fixpoint rows (fs : list (option str)) (ls cs : list N) (ts ms ns : list str)
  : list IssueRecord :=
  match fs, ls, cs, ts, ms, ns with
  | f :: fs', l :: ls', c :: cs', t :: ts', m :: ms', n :: ns' =>
      {| filename := f; line := l; col := c;
         error_type := t; error_msg := m; check_name := n |}
      :: rows fs' ls' cs' ts' ms' ns'
  | _, _, _, _, _, _ => []
  end.

(** [pd.DataFrame({...})]: the columns must have one length. *)
Definition DataFrame (st : columns) : exn + list IssueRecord :=
  let n := List.length (filenames st) in
  if ((List.length (line_nums st) =? n) && (List.length (col_nums st) =? n)
      && (List.length (error_types st) =? n) && (List.length (error_msgs st) =? n)
      && (List.length (check_names st) =? n))%nat
  then inr (rows (filenames st) (line_nums st) (col_nums st)
                 (error_types st) (error_msgs st) (check_names st))
  else inl ValueError.


(** The summary-marker glyph, U+2716. *)
Definition glyph : str := [10006%N].

(** [^\s*(\d+):(\d+)\s+(\w+)\s+(.+)$] *)
Definition location_pattern : pattern :=
  [Bos; Rep space 0; Cap digit 1; Chr (is_char 58); Cap digit 1;
   Rep space 1; Cap word 1; Rep space 1; Cap dot 1; Eos].

(** [^\d+:\d+] *)
Definition marker_pattern : pattern :=
  [Bos; Rep digit 1; Chr (is_char 58); Rep digit 1].

(** [\s{2,}] *)
Definition gap_pattern : pattern := [Rep space 2].

(** [^\s+] *)
Definition leading_space : list pattern := [[Bos; Rep space 1]].

Definition is_match (pat : pattern) (s : str) : bool :=
  match re_match pat s with Some _ => true | None => false end.

(** [lines = [strip_ansi_codes(line) for line in stdout.strip().split('\n')]] *)
Definition split_lines (stdout : str) : list str :=
  map strip_ansi_codes (split 10%N (strip stdout)).

Definition ends_like_doc (s : str) : bool :=
  endswith (lit ".mdx") s || endswith (lit ".md") s.

(** The file name the records carry: the caller's, or the first line when
    the caller gave none and that line, trimmed, ends in a documentation
    extension. *)
Definition resolve_filename (lines : list str) (fname : option str) : option str :=
  let given := match fname with Some f => truthy f | None => false end in
  match lines with
  | l0 :: _ =>
      if negb given && ends_like_doc (strip l0) then Some (strip l0) else fname
  | [] => fname
  end.

Definition start_idx (lines : list str) : nat :=
  if (1 <? List.length lines)%nat && ends_like_doc (nth 0 lines []) then 1 else 0.

(** The test of the look-ahead loop on one following line. *)
Definition continues (l : str) : bool :=
  truthy (strip l) && negb (is_match marker_pattern l)
  && negb (startswith glyph l).

(** The look-ahead loop over the lines from [next_idx] on: the message so
    far and the index reached. *)
Fixpoint look_ahead (following : list str) (full_msg : str) (next_idx : nat)
  : str * nat :=
  match following with
  | l :: following' =>
      if continues l then
        let additional_text := re_sub leading_space (fun _ => []) (strip l) in
        let full_msg' :=
          if truthy additional_text then full_msg ++ lit " " ++ additional_text
          else full_msg in
        look_ahead following' full_msg' (S next_idx)
      else (full_msg, next_idx)
  | [] => (full_msg, next_idx)
  end.

(** What the header line gives before the look-ahead: the two numbers as
    text, the error type, the message and the check name. *)
Definition parse_header (ln : str) : option (str * str * str * str * str) :=
  match re_match location_pattern ln with
  | Some [line_num; col_num; etype; rest] =>
      let parts := re_split gap_pattern rest in
      if (2 <=? List.length parts)%nat then
        Some (line_num, col_num, etype,
              strip (join (lit " ") (removelast parts)), last parts [])
      else None
  | _ => None
  end.

(** One turn of the main loop at index [i]: the next index and the lists.
    An exception inside the [try] (only [int] can raise one) leaves the
    lists as they are at that point and moves on by one line. *)
Definition loop_body (lines : list str) (fname : option str)
    (i : nat) (st : columns) : nat * columns :=
  let ln := strip (nth i lines []) in
  if negb (truthy ln) || startswith glyph ln then (S i, st)
  else
    match parse_header ln with
    | Some (line_num, col_num, etype, msg, cname) =>
        let '(full_msg, next_idx) := look_ahead (skipn (S i) lines) msg (S i) in
        let st1 := {| filenames := filenames st ++ [fname];
                      line_nums := line_nums st; col_nums := col_nums st;
                      error_types := error_types st; error_msgs := error_msgs st;
                      check_names := check_names st |} in
        match int line_num with
        | None => (S i, st1)
        | Some l =>
            let st2 := {| filenames := filenames st1;
                          line_nums := line_nums st1 ++ [l];
                          col_nums := col_nums st1;
                          error_types := error_types st1;
                          error_msgs := error_msgs st1;
                          check_names := check_names st1 |} in
            match int col_num with
            | None => (S i, st2)
            | Some c =>
                (next_idx,
                 {| filenames := filenames st2;
                    line_nums := line_nums st2;
                    col_nums := col_nums st2 ++ [c];
                    error_types := error_types st2 ++ [etype];
                    error_msgs := error_msgs st2 ++ [strip full_msg];
                    check_names := check_names st2 ++ [strip cname] |})
            end
        end
    | None => (S i, st)
    end.



(** [while i < len(lines): ...] *)
Fixpoint while_loop (fuel : nat) (lines : list str) (fname : option str)
    (i : nat) (st : columns) : nat * columns :=
  match fuel with
  | O => (i, st)
  | S fuel' =>
      if (i <? List.length lines)%nat then
        let '(i', st') := loop_body lines fname i st in
        while_loop fuel' lines fname i' st'
      else (i, st)
  end.

Definition parse_lines (lines : list str) (fname : option str) : nat * columns :=
  while_loop (List.length lines) lines (resolve_filename lines fname)
             (start_idx lines) no_columns.

Definition parse_vale_output (stdout : str) (fname : option str)
  : exn + list IssueRecord :=
  DataFrame (snd (parse_lines (split_lines stdout) fname)).

(** ** The report: [groupby(...).size()] and [sort_values] *)

Fixpoint str_leb (a b : str) : bool :=
  match a, b with
  | [], _ => true
  | _ :: _, [] => false
  | x :: a', y :: b' => (x <? y)%N || ((x =? y)%N && str_leb a' b')
  end.

Definition key := (str * str)%type.

Definition key_eq_dec (a b : key) : {a = b} + {a <> b}.
Proof. repeat decide equality. Defined.

Definition key_leb (a b : key) : bool :=
  if str_eqb (fst a) (fst b) then str_leb (snd a) (snd b)
  else str_leb (fst a) (fst b).

Fixpoint insert_by {A} (leb : A -> A -> bool) (x : A) (l : list A) : list A :=
  match l with
  | [] => [x]
  | y :: l' => if leb x y then x :: l else y :: insert_by leb x l'
  end.

(** A stable sort: elements that compare equal keep their order. *)
Definition sort_by {A} (leb : A -> A -> bool) (l : list A) : list A :=
  fold_right (insert_by leb) [] l.

Record ReportRow := {
  group_error_type : str;
  group_check_name : str;
  count : nat
}.

Definition key_of (r : IssueRecord) : key := (error_type r, check_name r).

Definition group_key (row : ReportRow) : key :=
  (group_error_type row, group_check_name row).

Definition report_row (keys : list key) (k : key) : ReportRow :=
  {| group_error_type := fst k; group_check_name := snd k;
     count := count_occ key_eq_dec keys k |}.

(** [final_df.groupby(['error_type', 'check_name']).size().reset_index(name='count')]:
    one row per distinct key, keys ascending, with the number of records
    of that key. *)
Definition groupby_size (final_df : list IssueRecord) : list ReportRow :=
  let keys := map key_of final_df in
  map (report_row keys) (sort_by key_leb (nodup key_eq_dec keys)).

Definition by_count (a b : ReportRow) : bool := (count b <=? count a)%nat.

(** [sort_values('count', ascending=False)].  pandas' default sort is not
    stable; the order of rows of equal count is not relied on below. *)
Definition sort_values (report : list ReportRow) : list ReportRow :=
  sort_by by_count report.

Definition error_report (final_df : list IssueRecord) : list ReportRow :=
  sort_values (groupby_size final_df).

(** ** The world: file system, subprocesses, terminal *)

(** What a subprocess invocation (lines 32 to 43: the echo, [Popen],
    [communicate]) comes to: the two captured texts, or an [Exception]
    with its description. *)
Inductive outcome :=
| Completed (stdout stderr : str)
| Failed (description : str).

Variable world : Type.
Variable path_exists : str -> world -> bool.
Variable path_is_dir : str -> world -> bool.
Variable path_is_file : str -> world -> bool.
(** [directory.rglob("*")] *)
Variable rglob : str -> world -> list str.
(** [re.search(pattern, name)] for the user's pattern. *)
Variable re_search : str -> str -> bool.
Variable run_shell : str -> world -> outcome * world.

Record Tree := {
  tree_root : str;
  tree_filter : option str;
  tree_files : list str
}.

(** What the program does to the outside, in order. *)
Inductive action :=
| Walk (directory : str)
| Run (formatted_command : str)
| PrintInvalidDirectory (directory : str)
| PrintTree (tree : Tree)
| PrintCounts (matched_files total_files : nat)
| PrintRunning (command : str)
| PrintFile (filepath : str)
| PrintStdout (stdout : str)
| PrintStderr (stderr : str)
| PrintTable (final_df : list IssueRecord)
| PrintReport (report : list ReportRow)
| PrintTotal (n : nat).

Definition state := (world * list action)%type.

(** Computations that act on the world and may raise. *)
Definition M (A : Type) : Type := state -> (exn + A) * state.

Definition ret {A} (a : A) : M A := fun s => (inr a, s).

Definition bind {A B} (m : M A) (k : A -> M B) : M B :=
  fun s => match m s with
           | (inr a, s') => k a s'
           | (inl e, s') => (inl e, s')
           end.

Notation "x <- m ;; k" := (bind m (fun x => k))
  (at level 61, m at next level, right associativity).
Notation "m ;;; k" := (bind m (fun _ => k))
  (at level 61, right associativity).

Definition emit (a : action) : M unit :=
  fun s => (inr tt, (fst s, snd s ++ [a])).

Definition ask {A} (f : world -> A) : M A :=
  fun s => (inr (f (fst s)), s).


Definition shell (formatted_command : str) : M outcome :=
  fun s => let '(o, w) := run_shell formatted_command (fst s) in
           (inr o, (w, snd s ++ [Run formatted_command])).

(** ** [run_command_for_files] *)

(** [re.sub(r'[()]', lambda m: f'\\{m.group(0)}', file_path)] *)
Definition paren_pattern : list pattern :=
  [[Chr (fun c => is_char 40 c || is_char 41 c)]].

Definition escape_parens (file_path : str) : str :=
  re_sub paren_pattern (fun m => 92%N :: m) file_path.

(** What the substitution does to one character. *)
Definition escape_char (c : char) : str :=
  if is_char 40 c || is_char 41 c then [92%N; c] else [c].

Definition formatted_command (command file_path : str) : str :=
  command ++ lit " " ++ escape_parens file_path.

Definition CommandResult := (str * str * str)%type.

(** One turn of the loop: the tuple appended to [results]. *)
Definition run_one (command file_path : str) : M CommandResult :=
  let file_path' := escape_parens file_path in
  o <- shell (formatted_command command file_path) ;;
  match o with
  | Completed stdout stderr => ret (file_path', strip stdout, strip stderr)
  | Failed e => ret (file_path', [], e)
  end.

Fixpoint run_command_for_files (file_paths : list str) (command : str)
  : M (list CommandResult) :=
  match file_paths with
  | [] => ret []
  | file_path :: rest =>
      r <- run_one command file_path ;;
      rs <- run_command_for_files rest command ;;
      ret (r :: rs)
  end.

(** ** [collect_files] and [create_file_tree] *)

(** [item.name]: the last component of the path. *)
Definition path_name (p : str) : str := last (split 47%N p) [].

Definition collect_files (directory : str) (pat : option str) : M (list str) :=
  emit (Walk directory) ;;;
  ask (fun w =>
         filter (fun item =>
                   path_is_file item w &&
                   match pat with
                   | None => true
                   | Some p => re_search p (path_name item)
                   end)
                (rglob directory w)).

(** Paths compare component by component. *)
Fixpoint parts_leb (a b : list str) : bool :=
  match a, b with
  | [], _ => true
  | _ :: _, [] => false
  | x :: a', y :: b' =>
      if str_eqb x y then parts_leb a' b' else str_leb x y
  end.

Definition path_leb (a b : str) : bool :=
  parts_leb (split 47%N a) (split 47%N b).

(** The tree shown on the terminal: its label and its sorted entries (the
    rendering of the entries is the console's). *)
Definition create_file_tree (directory : str) (pat : option str) : M Tree :=
  files <- collect_files directory pat ;;
  ret {| tree_root := directory;
         tree_filter := match pat with
                        | Some p => if truthy p then Some p else None
                        | None => None
                        end;
         tree_files := sort_by path_leb files |}.

(** ** [main] *)




(** * Properties *)

(** ** Strings *)











(** ** The matcher *)


(** The longest run is tried first: when the continuation accepts it, it
    is the answer. *)
Lemma greedy_max {R} (p : char -> bool) (k : str -> str -> option R) :
  forall txt rest lo acc r,
    forallb p txt = true ->
    match rest with c :: _ => p c = false | [] => True end ->
    lo <= List.length txt ->
    k (rev acc ++ txt) rest = Some r ->
    greedy p k lo acc (txt ++ rest) = Some r.
Proof.
  induction txt as [|c txt IH]; intros rest lo acc r F Hr L K; simpl in *.
  - assert (lo = 0) by lia. subst lo. rewrite app_nil_r in K.
    destruct rest as [|c t]; simpl; [exact K|]. now rewrite Hr.
  - apply andb_prop in F. destruct F as [Hc F]. rewrite Hc.
    rewrite (IH rest (pred lo) (c :: acc) r); auto; [lia|].
    simpl. rewrite <- app_assoc. exact K.
Qed.



(** The library functions on small inputs. *)

Example strip_ansi_codes_colour :
  strip_ansi_codes ([27%N] ++ lit "[31merror" ++ [27%N] ++ lit "[0m")
  = lit "error".
Proof. vm_compute. reflexivity. Qed.

Example re_split_gaps :
  re_split gap_pattern (lit "Some message   Rule.Name x")
  = [lit "Some message"; lit "Rule.Name x"].
Proof. vm_compute. reflexivity. Qed.

Example re_match_location :
  re_match location_pattern (lit "12:7 warning  Avoid this  Vale.Avoid")
  = Some [lit "12"; lit "7"; lit "warning"; lit "Avoid this  Vale.Avoid"].
Proof. vm_compute. reflexivity. Qed.

Example split_lines_trims :
  split_lines ([32%N; 10%N] ++ lit "a.md" ++ [10%N; 10%N] ++ lit " 1:2 x" ++ [10%N])
  = [lit "a.md"; []; lit " 1:2 x"].
Proof. vm_compute. reflexivity. Qed.

(** ** The parser on concrete outputs *)

(** C1: the one-line output "3:10  error  Some message  RuleName", parsed
    with no file name given, is exactly one record: line 3, column 10,
    error type "error", message "Some message", check name "RuleName". *)
Theorem parse_single_finding :
  parse_vale_output (lit "3:10  error  Some message  RuleName") None =
  inr [ {| filename := None; line := 3; col := 10;
           error_type := lit "error";
           error_msg := lit "Some message";
           check_name := lit "RuleName" |} ].
Proof. vm_compute. reflexivity. Qed.

(** C10: there is an output in which a line that is a finding header of its
    own, but for the white space before its marker, follows a header: it is
    taken as continuation text of the record before it (its trimmed text is
    appended to that message) and gives no record of its own. *)
Theorem indented_header_is_continuation :
  solid_head (lit "  2:2 error  second  R2") = false /\
  parse_vale_output (strip (lit "  2:2 error  second  R2")) None =
  inr [ {| filename := None; line := 2; col := 2;
           error_type := lit "error";
           error_msg := lit "second";
           check_name := lit "R2" |} ] /\
  parse_vale_output
    (lit "1:1 error  first  R1" ++ [10%N] ++ lit "  2:2 error  second  R2")
    None =
  inr [ {| filename := None; line := 1; col := 1;
           error_type := lit "error";
           error_msg := lit "first" ++ lit " " ++ lit "2:2 error  second  R2";
           check_name := lit "R1" |} ].
Proof. vm_compute. auto. Qed.

(** ** [re.sub], one step at a time *)

Lemma sub_from_match alts repl bol c t gs :
  exec_alt alts bol (c :: t) = Some (gs, t) ->
  sub_from alts repl bol 0 (c :: t) = repl [c] ++ sub_from alts repl false 0 t.
Proof.
  intros H. cbn [sub_from]. rewrite H.
  replace (List.length (c :: t) - List.length t) with 1
    by (cbn [List.length]; lia).
  reflexivity.
Qed.

Lemma sub_from_no_match alts repl bol c t :
  exec_alt alts bol (c :: t) = None ->
  sub_from alts repl bol 0 (c :: t) = c :: sub_from alts repl false 0 t.
Proof. intros H. cbn [sub_from]. now rewrite H. Qed.

(** ** The command runner *)

Lemma escape_parens_flat_map (file_path : str) :
  escape_parens file_path = flat_map escape_char file_path.
Proof.
  unfold escape_parens, re_sub. generalize true.
  induction file_path as [|c t IH]; intros b.
  - reflexivity.
  - simpl flat_map. unfold escape_char at 1.
    destruct (is_char 40 c || is_char 41 c) eqn:Hc.
    + rewrite (sub_from_match _ _ _ _ _ []).
      * rewrite IH. reflexivity.
      * simpl. now rewrite Hc.
    + rewrite sub_from_no_match.
      * now rewrite IH.
      * simpl. now rewrite Hc.
Qed.

(** C6: the command line is the template, one space, and the path with
    a backslash put before each parenthesis and nothing else changed; the
    path is appended, a [{filepath}] in the template stays as it is. *)
Theorem command_line_appends_escaped_path :
  (forall command file_path,
      formatted_command command file_path =
      command ++ [32%N] ++
      flat_map (fun c => if (c =? 40)%N || (c =? 41)%N then [92%N; c] else [c])
               file_path) /\
  formatted_command (lit "vale {filepath}") (lit "docs/a(1).md") =
  lit "vale {filepath} docs/a\(1\).md".
Proof.
  split; [| vm_compute; reflexivity].
  intros command file_path. unfold formatted_command.
  now rewrite escape_parens_flat_map.
Qed.

Lemma run_one_completed command file_path s out err w :
  run_shell (formatted_command command file_path) (fst s) = (Completed out err, w) ->
  run_one command file_path s =
  (inr (escape_parens file_path, strip out, strip err),
   (w, snd s ++ [Run (formatted_command command file_path)])).
Proof. intros H. unfold run_one, bind, shell. now rewrite H. Qed.

Lemma run_one_failed command file_path s e w :
  run_shell (formatted_command command file_path) (fst s) = (Failed e, w) ->
  run_one command file_path s =
  (inr (escape_parens file_path, [], e),
   (w, snd s ++ [Run (formatted_command command file_path)])).
Proof. intros H. unfold run_one, bind, shell. now rewrite H. Qed.

Lemma run_one_total command file_path s :
  exists out err s',
    run_one command file_path s = (inr (escape_parens file_path, out, err), s').
Proof.
  destruct (run_shell (formatted_command command file_path) (fst s))
    as [[out err|e] w] eqn:H.
  - rewrite (run_one_completed _ _ _ _ _ _ H). eauto.
  - rewrite (run_one_failed _ _ _ _ _ H). eauto.
Qed.

Lemma run_cons command file_path rest s r s1 rs s2 :
  run_one command file_path s = (inr r, s1) ->
  run_command_for_files rest command s1 = (inr rs, s2) ->
  run_command_for_files (file_path :: rest) command s = (inr (r :: rs), s2).
Proof.
  intros H1 H2. cbn [run_command_for_files]. unfold bind at 1.
  rewrite H1. unfold bind at 1. now rewrite H2.
Qed.

Lemma run_total command :
  forall file_paths s,
    exists results s',
      run_command_for_files file_paths command s = (inr results, s') /\
      map (fun r => fst (fst r)) results = map escape_parens file_paths.
Proof.
  induction file_paths as [|fp rest IH]; intros s.
  - exists [], s. auto.
  - destruct (run_one_total command fp s) as [out [err [s1 H1]]].
    destruct (IH s1) as [rs [s2 [H2 E]]].
    exists ((escape_parens fp, out, err) :: rs), s2.
    split; [now apply (run_cons _ _ _ _ _ s1) |].
    simpl. now rewrite E.
Qed.

Lemma run_app command :
  forall before after s ra s1 rb s2,
    run_command_for_files before command s = (inr ra, s1) ->
    run_command_for_files after command s1 = (inr rb, s2) ->
    run_command_for_files (before ++ after) command s = (inr (ra ++ rb), s2).
Proof.
  induction before as [|fp rest IH]; intros after s ra s1 rb s2 H1 H2.
  - inversion H1; subst. exact H2.
  - destruct (run_one_total command fp s) as [out [err [s0 H0]]].
    destruct (run_total command rest s0) as [rs [s' [Hr _]]].
    rewrite (run_cons _ _ _ _ _ _ _ _ H0 Hr) in H1. inversion H1; subst.
    simpl. apply (run_cons _ _ _ _ _ s0); [exact H0|].
    now apply (IH _ _ _ s1).
Qed.

(** C5: the runner returns one tuple per file, in the order of the files,
    and never raises; a file whose subprocess cannot be launched or talked
    to gets the empty standard output and the failure's description as
    standard error, and the files after it are processed all the same. *)
Theorem one_result_per_file :
  forall file_paths command s,
    (exists results s',
        run_command_for_files file_paths command s = (inr results, s') /\
        List.length results = List.length file_paths /\
        map (fun r => fst (fst r)) results = map escape_parens file_paths) /\
    (forall before file_path after e w,
        file_paths = before ++ file_path :: after ->
        run_shell (formatted_command command file_path)
                  (fst (snd (run_command_for_files before command s)))
        = (Failed e, w) ->
        exists rs_before rs_after s',
          run_command_for_files file_paths command s =
          (inr (rs_before ++ (escape_parens file_path, [], e) :: rs_after), s') /\
          List.length rs_before = List.length before /\
          List.length rs_after = List.length after).
Proof.
  intros file_paths command s. split.
  - destruct (run_total command file_paths s) as [rs [s' [H E]]].
    exists rs, s'. repeat split; auto.
    apply (f_equal (@List.length _)) in E. now rewrite !length_map in E.
  - intros before fp after e w -> Hf.
    destruct (run_total command before s) as [ra [s1 [Ha Ea]]].
    rewrite Ha in Hf. simpl in Hf.
    pose proof (run_one_failed _ _ _ _ _ Hf) as H1.
    destruct (run_total command after
                (w, snd s1 ++ [Run (formatted_command command fp)]))
      as [rb [s2 [Hb Eb]]].
    exists ra, rb, s2. split; [| split].
    + apply (run_app _ _ _ _ _ s1); [exact Ha|].
      now apply (run_cons _ _ _ _ _ _ _ _ H1).
    + apply (f_equal (@List.length _)) in Ea. now rewrite !length_map in Ea.
    + apply (f_equal (@List.length _)) in Eb. now rewrite !length_map in Eb.
Qed.

(** ** The top-level flow *)


(** ** The report *)

Lemma insert_by_perm {A} (leb : A -> A -> bool) (x : A) (l : list A) :
  Permutation (insert_by leb x l) (x :: l).
Proof.
  induction l as [|y l IH]; simpl; [reflexivity|].
  destruct (leb x y); [reflexivity|].
  rewrite IH. apply perm_swap.
Qed.

Lemma sort_by_perm {A} (leb : A -> A -> bool) (l : list A) :
  Permutation (sort_by leb l) l.
Proof.
  induction l as [|x l IH]; simpl; [reflexivity|].
  unfold sort_by in IH. rewrite insert_by_perm. now constructor.
Qed.

Lemma insert_by_count_sorted (x : ReportRow) (l : list ReportRow) :
  StronglySorted (fun a b => count b <= count a) l ->
  StronglySorted (fun a b => count b <= count a) (insert_by by_count x l).
Proof.
  induction 1 as [|y l Hs IH Hy]; simpl.
  - repeat constructor.
  - unfold by_count at 1. destruct (count y <=? count x)%nat eqn:E.
    + apply Nat.leb_le in E. constructor; [now constructor|].
      constructor; [exact E|].
      eapply Forall_impl; [| exact Hy]. simpl. intros; lia.
    + apply Nat.leb_gt in E. constructor; [exact IH|].
      rewrite (insert_by_perm by_count x l).
      constructor; [lia | exact Hy].
Qed.

Lemma sort_values_sorted (report : list ReportRow) :
  StronglySorted (fun a b => count b <= count a) (sort_values report).
Proof.
  unfold sort_values, sort_by.
  induction report as [|x l IH]; simpl; [constructor|].
  now apply insert_by_count_sorted.
Qed.

Lemma error_report_perm (final_df : list IssueRecord) :
  Permutation (error_report final_df)
              (map (report_row (map key_of final_df))
                   (nodup key_eq_dec (map key_of final_df))).
Proof.
  unfold error_report, sort_values, groupby_size.
  rewrite sort_by_perm. apply Permutation_map, sort_by_perm.
Qed.

(** C7: the grouped summary has one row for each pair (error type, check
    name) that occurs, with the number of records of that pair, and the
    rows are in descending order of count; two records ("error","R1") and
    one ("warning","R2"), in any order, give the counts 2 and 1, the
    count-2 row first. *)
Theorem report_counts_and_order :
  (forall final_df,
      (forall row,
          In row (error_report final_df) <->
          In (group_key row) (map key_of final_df) /\
          count row =
          count_occ key_eq_dec (map key_of final_df) (group_key row)) /\
      NoDup (map group_key (error_report final_df)) /\
      StronglySorted (fun a b => count b <= count a) (error_report final_df)) /\
  (forall f1 l1 c1 m1 f2 l2 c2 m2 f3 l3 c3 m3,
      let a := {| filename := f1; line := l1; col := c1;
                  error_type := lit "error"; error_msg := m1;
                  check_name := lit "R1" |} in
      let b := {| filename := f2; line := l2; col := c2;
                  error_type := lit "error"; error_msg := m2;
                  check_name := lit "R1" |} in
      let c := {| filename := f3; line := l3; col := c3;
                  error_type := lit "warning"; error_msg := m3;
                  check_name := lit "R2" |} in
      let expected :=
        [ {| group_error_type := lit "error"; group_check_name := lit "R1";
             count := 2 |};
          {| group_error_type := lit "warning"; group_check_name := lit "R2";
             count := 1 |} ] in
      error_report [a; b; c] = expected /\
      error_report [a; c; b] = expected /\
      error_report [c; a; b] = expected).
Proof.
  split.
  - intros final_df. split; [| split].
    + intros row. rewrite (error_report_perm final_df).
      rewrite in_map_iff. split.
      * intros [k [E Hk]]. apply nodup_In in Hk. subst row. simpl.
        destruct k; auto.
      * intros [Hk Hc]. exists (group_key row). split.
        -- destruct row; unfold report_row; simpl in *. now rewrite Hc.
        -- now apply nodup_In.
    + apply (Permutation_NoDup
               (l := nodup key_eq_dec (map key_of final_df))).
      * rewrite (error_report_perm final_df), map_map.
        rewrite (map_ext _ (fun k => k)); [now rewrite map_id|].
        intros [t n]. reflexivity.
      * apply NoDup_nodup.
    + apply sort_values_sorted.
  - intros. vm_compute. auto.
Qed.

(** ** The main loop of the parser *)









Lemma parse_header_no_match (ln : str) :
  re_match location_pattern ln = None -> parse_header ln = None.
Proof. unfold parse_header. now intros ->. Qed.

Lemma look_ahead_bounds :
  forall following full_msg next_idx,
    next_idx <= snd (look_ahead following full_msg next_idx)
    <= next_idx + List.length following.
Proof.
  induction following as [|l fol IH]; intros full_msg next_idx; simpl; [lia|].
  destruct (continues l); simpl; [| lia].
  match goal with |- context [look_ahead fol ?m ?n] =>
    specialize (IH m n) end.
  lia.
Qed.

(** A line that does not match the header pattern: no record, and the
    cursor moves on by one. *)
Lemma loop_body_no_match (lines : list str) fname i st :
  re_match location_pattern (strip (nth i lines [])) = None ->
  loop_body lines fname i st = (S i, st).
Proof.
  intros H. unfold loop_body. cbv zeta.
  destruct (negb (truthy (strip (nth i lines []))) ||
            startswith glyph (strip (nth i lines []))); [reflexivity|].
  now rewrite (parse_header_no_match _ H).
Qed.

(** Every turn of the loop moves the cursor forward. *)
Lemma loop_body_advances (lines : list str) fname i st :
  i < fst (loop_body lines fname i st).
Proof.
  unfold loop_body. cbv zeta.
  destruct (negb (truthy (strip (nth i lines []))) ||
            startswith glyph (strip (nth i lines []))); [simpl; lia|].
  destruct (parse_header (strip (nth i lines [])))
    as [[[[[line_num col_num] etype] msg] cname]|]; [| simpl; lia].
  pose proof (look_ahead_bounds (skipn (S i) lines) msg (S i)) as B.
  destruct (look_ahead (skipn (S i) lines) msg (S i)) as [full_msg next_idx].
  simpl in B.
  destruct (int line_num); [| simpl; lia].
  destruct (int col_num); simpl; lia.
Qed.


(** Past that point the fuel no longer matters: the result is the one of
    the unbounded loop. *)
Lemma while_loop_fuel (lines : list str) fname :
  forall fuel fuel' i st,
    List.length lines <= i + fuel ->
    List.length lines <= i + fuel' ->
    while_loop fuel lines fname i st = while_loop fuel' lines fname i st.
Proof.
  induction fuel as [|fuel IH]; intros fuel' i st H H'.
  - destruct fuel' as [|fuel']; [reflexivity|]. simpl.
    replace (i <? List.length lines)%nat with false; [reflexivity|].
    symmetry. apply Nat.ltb_ge. lia.
  - destruct fuel' as [|fuel']; simpl.
    + replace (i <? List.length lines)%nat with false; [reflexivity|].
      symmetry. apply Nat.ltb_ge. lia.
    + destruct (i <? List.length lines)%nat eqn:E; [| reflexivity].
      pose proof (loop_body_advances lines fname i st) as A.
      destruct (loop_body lines fname i st) as [i' st']. simpl in A.
      apply IH; lia.
Qed.




Lemma while_loop_no_headers (lines : list str) fname :
  (forall l, In l lines -> re_match location_pattern (strip l) = None) ->
  forall fuel i st, snd (while_loop fuel lines fname i st) = st.
Proof.
  intros Hno. induction fuel as [|fuel IH]; intros i st; simpl; [reflexivity|].
  destruct (i <? List.length lines)%nat eqn:E; [| reflexivity].
  apply Nat.ltb_lt in E.
  rewrite loop_body_no_match; [apply IH|].
  apply Hno. now apply nth_In.
Qed.

(** C8: the empty output, and any output none of whose lines matches the
    header pattern, parse to the empty sequence of records, without error. *)
Theorem no_headers_no_records :
  (forall fname, parse_vale_output [] fname = inr []) /\
  (forall stdout fname,
      (forall l, In l (split_lines stdout) ->
                 re_match location_pattern (strip l) = None) ->
      parse_vale_output stdout fname = inr []).
Proof.
  assert (H : forall stdout fname,
             (forall l, In l (split_lines stdout) ->
                        re_match location_pattern (strip l) = None) ->
             parse_vale_output stdout fname = inr []).
  { intros stdout fname Hno. unfold parse_vale_output, parse_lines.
    now rewrite (while_loop_no_headers _ _ Hno). }
  split; [| exact H].
  intros fname. apply H. intros l [<- | []]. reflexivity.
Qed.


(** ** A header followed by its continuation *)
















(** * Further properties of the code *)

(** ** [strip_ansi_codes] *)

Lemma exec_alt_ansi_bol (bol : bool) (s : str) :
  exec_alt ansi_pattern bol s = exec_alt ansi_pattern false s.
Proof. destruct s; reflexivity. Qed.

Lemma sub_from_ansi_bol (repl : str -> str) (bol : bool) (skip : nat) (s : str) :
  sub_from ansi_pattern repl bol skip s = sub_from ansi_pattern repl false skip s.
Proof.
  destruct skip as [|n]; [| destruct s; reflexivity].
  destruct s as [|c t]; cbn [sub_from]; now rewrite exec_alt_ansi_bol.
Qed.

Lemma exec_alt_ansi_no_escape (bol : bool) (c : char) (t : str) :
  (c =? 27)%N = false -> exec_alt ansi_pattern bol (c :: t) = None.
Proof. intros H. cbn. unfold is_char. now rewrite H. Qed.

(** X1: text before the first escape character goes through unchanged;
    in particular text with no escape character is left as it is. *)
Theorem strip_ansi_codes_plain_prefix :
  forall plain rest,
    forallb (fun c => negb (c =? 27)%N) plain = true ->
    strip_ansi_codes (plain ++ rest) = plain ++ strip_ansi_codes rest.
Proof.
  intros plain rest H. unfold strip_ansi_codes, re_sub.
  rewrite (sub_from_ansi_bol _ true 0 rest). generalize true.
  induction plain as [|c t IH]; intros bol.
  - apply sub_from_ansi_bol.
  - simpl in H. apply andb_prop in H. destruct H as [Hc H].
    apply negb_true_iff in Hc. simpl app.
    rewrite sub_from_no_match; [| now apply exec_alt_ansi_no_escape].
    now rewrite IH.
Qed.

Lemma sub_from_skip (alts : list pattern) (repl : str -> str) :
  forall passed bol c rest,
    sub_from alts repl bol (S (List.length passed)) (c :: passed ++ rest)
    = sub_from alts repl false 0 rest.
Proof.
  induction passed as [|d passed IH]; intros bol c rest.
  - reflexivity.
  - cbn [List.length app]. cbn [sub_from]. exact (IH false d rest).
Qed.

Lemma csi_parameter_not_letter (c : char) :
  ascii_alpha c = true -> ascii_digit c || is_char 59 c = false.
Proof.
  unfold ascii_alpha, ascii_digit, is_char, in_range. intros H.
  apply orb_true_iff in H.
  apply orb_false_iff. split; [apply andb_false_iff | apply N.eqb_neq];
    destruct H as [H | H]; apply andb_prop in H; destruct H as [H1 H2];
    apply N.leb_le in H1; apply N.leb_le in H2;
    try (right; apply N.leb_gt; lia); lia.
Qed.

(** X2: a control sequence, escape, bracket, digits and semicolons, then
    an ASCII letter, is removed, and the text after it is treated as if it
    stood alone. *)
Theorem strip_ansi_codes_removes_sequence :
  forall params letter rest,
    forallb (fun c => ascii_digit c || is_char 59 c) params = true ->
    ascii_alpha letter = true ->
    strip_ansi_codes ([27%N; 91%N] ++ params ++ [letter] ++ rest)
    = strip_ansi_codes rest.
Proof.
  intros params letter rest Hp Hl. unfold strip_ansi_codes, re_sub.
  rewrite (sub_from_ansi_bol _ true 0 rest). cbn [app].
  assert (E : exec_alt ansi_pattern true
                (27%N :: 91%N :: params ++ letter :: rest)
              = Some ([], rest)).
  { cbn [exec_alt ansi_pattern exec]. unfold is_char at 1 2.
    cbn [N.eqb Pos.eqb].
    rewrite (greedy_max _ _ params (letter :: rest) 0 []
               (([], rest) : list str * str)); auto.
    - now apply csi_parameter_not_letter.
    - lia.
    - cbn [exec]. now rewrite Hl. }
  cbn [sub_from]. rewrite E.
  match goal with |- context [?a - ?b] =>
    replace (a - b) with (S (S (List.length (params ++ [letter]))))
  end.
  - change (letter :: rest) with ([letter] ++ rest).
    rewrite app_assoc.
    apply (sub_from_skip ansi_pattern (fun _ => []) (params ++ [letter])
             false 91%N rest).
  - cbn [List.length]. rewrite !length_app. cbn [List.length]. lia.
Qed.

(** ** Invariants of the parser *)



















(** ** A header and any number of continuation lines *)






(** ** More on the command runner *)

Lemma escape_char_cases (c : char) :
  (is_char 40 c || is_char 41 c = true /\ escape_char c = [92%N; c]) \/
  (is_char 40 c || is_char 41 c = false /\ escape_char c = [c]).
Proof.
  unfold escape_char. destruct (is_char 40 c || is_char 41 c); auto.
Qed.

Lemma escaped_head_not_paren (s : str) :
  match flat_map escape_char s with
  | x :: _ => is_char 40 x || is_char 41 x = false
  | [] => True
  end.
Proof.
  destruct s as [|c t]; simpl; [exact I|].
  destruct (escape_char_cases c) as [[E ->] | [E ->]]; simpl.
  - reflexivity.
  - exact E.
Qed.

Lemma flat_map_escape_injective :
  forall a b, flat_map escape_char a = flat_map escape_char b -> a = b.
Proof.
  induction a as [|x a IH]; intros [|y b] H; simpl in H.
  - reflexivity.
  - exfalso. destruct (escape_char_cases y) as [[_ E] | [_ E]];
      rewrite E in H; discriminate.
  - exfalso. destruct (escape_char_cases x) as [[_ E] | [_ E]];
      rewrite E in H; discriminate.
  - pose proof (escaped_head_not_paren a) as Ha.
    pose proof (escaped_head_not_paren b) as Hb.
    destruct (escape_char_cases x) as [[Ex E1] | [Ex E1]];
      destruct (escape_char_cases y) as [[Ey E2] | [Ey E2]];
      rewrite E1, E2 in H; simpl in H.
    + inversion H as [[Exy Et]]. subst. f_equal. now apply IH.
    + exfalso. inversion H as [[Exy Et]]. rewrite <- Et in Hb.
      rewrite Ex in Hb. discriminate.
    + exfalso. inversion H as [[Exy Et]]. rewrite Et in Ha.
      rewrite Ey in Ha. discriminate.
    + inversion H as [[Exy Et]]. subst. f_equal. now apply IH.
Qed.

(** X6: different paths give different command lines: the escaping of
    parentheses loses nothing. *)
Theorem command_line_determines_path :
  forall command p q,
    formatted_command command p = formatted_command command q -> p = q.
Proof.
  intros command p q H. unfold formatted_command in H.
  apply app_inv_head in H. apply app_inv_head in H.
  rewrite !escape_parens_flat_map in H.
  now apply flat_map_escape_injective.
Qed.

(** X7: a path with no parenthesis is passed as it is. *)
Theorem path_without_parens_unchanged :
  forall command file_path,
    forallb (fun c => negb (is_char 40 c || is_char 41 c)) file_path = true ->
    escape_parens file_path = file_path /\
    formatted_command command file_path = command ++ lit " " ++ file_path.
Proof.
  intros command file_path H.
  assert (E : escape_parens file_path = file_path).
  { rewrite escape_parens_flat_map.
    induction file_path as [|c t IH]; [reflexivity|].
    simpl in H. apply andb_prop in H. destruct H as [Hc H].
    apply negb_true_iff in Hc. simpl. unfold escape_char at 1.
    rewrite Hc. simpl. now rewrite IH. }
  split; [exact E|]. unfold formatted_command. now rewrite E.
Qed.



(** X9: for a file whose command runs to its end, the tuple holds the
    escaped path and the two captured texts with the white space at their
    ends removed. *)
Theorem completed_output_is_trimmed :
  forall file_paths command s before file_path after out err w,
    file_paths = before ++ file_path :: after ->
    run_shell (formatted_command command file_path)
              (fst (snd (run_command_for_files before command s)))
    = (Completed out err, w) ->
    exists rs_before rs_after s',
      run_command_for_files file_paths command s =
      (inr (rs_before ++ (escape_parens file_path, strip out, strip err)
                      :: rs_after), s') /\
      List.length rs_before = List.length before /\
      List.length rs_after = List.length after.
Proof.
  intros file_paths command s before fp after out err w -> Hc.
  destruct (run_total command before s) as [ra [s1 [Ha Ea]]].
  rewrite Ha in Hc. simpl in Hc.
  pose proof (run_one_completed _ _ _ _ _ _ Hc) as H1.
  destruct (run_total command after
              (w, snd s1 ++ [Run (formatted_command command fp)]))
    as [rb [s2 [Hb Eb]]].
  exists ra, rb, s2. split; [| split].
  - apply (run_app _ _ _ _ _ s1); [exact Ha|].
    now apply (run_cons _ _ _ _ _ _ _ _ H1).
  - apply (f_equal (@List.length _)) in Ea. now rewrite !length_map in Ea.
  - apply (f_equal (@List.length _)) in Eb. now rewrite !length_map in Eb.
Qed.

(** ** The file tree *)

Lemma str_eqb_eq (a b : str) : str_eqb a b = true <-> a = b.
Proof.
  unfold str_eqb. destruct (list_eq_dec N.eq_dec a b); split; auto; discriminate.
Qed.

Lemma str_eqb_sym (a b : str) : str_eqb a b = str_eqb b a.
Proof.
  unfold str_eqb.
  destruct (list_eq_dec N.eq_dec a b), (list_eq_dec N.eq_dec b a);
    auto; congruence.
Qed.

Lemma str_leb_total :
  forall a b, str_leb a b = false -> str_leb b a = true.
Proof.
  induction a as [|x a IH]; intros [|y b] H; simpl in *; try discriminate; auto.
  apply orb_false_iff in H. destruct H as [H1 H2].
  apply N.ltb_ge in H1.
  destruct (y <? x)%N eqn:L; [reflexivity|]. apply N.ltb_ge in L.
  assert (x = y) by lia. subst y.
  rewrite N.eqb_refl in *. simpl in *. now apply IH.
Qed.

Lemma parts_leb_total :
  forall a b, parts_leb a b = false -> parts_leb b a = true.
Proof.
  induction a as [|x a IH]; intros [|y b] H; simpl in *; try discriminate; auto.
  rewrite (str_eqb_sym y x). destruct (str_eqb x y); [now apply IH|].
  now apply str_leb_total.
Qed.

Lemma insert_by_hd {A} (leb : A -> A -> bool) (x y : A) (l : list A) :
  HdRel (fun a b => leb a b = true) y l -> leb y x = true ->
  HdRel (fun a b => leb a b = true) y (insert_by leb x l).
Proof.
  intros H Hyx. destruct l as [|z l]; simpl; [now constructor|].
  destruct (leb x z); constructor; auto. now inversion H.
Qed.

Lemma insert_by_sorted {A} (leb : A -> A -> bool) (x : A) (l : list A) :
  (forall a b, leb a b = false -> leb b a = true) ->
  Sorted (fun a b => leb a b = true) l ->
  Sorted (fun a b => leb a b = true) (insert_by leb x l).
Proof.
  intros Htot. induction 1 as [|y l Hs IH Hy]; simpl.
  - repeat constructor.
  - destruct (leb x y) eqn:E.
    + constructor; [now constructor | now constructor].
    + constructor; [exact IH|]. apply insert_by_hd; auto.
Qed.

Lemma sort_by_sorted {A} (leb : A -> A -> bool) (l : list A) :
  (forall a b, leb a b = false -> leb b a = true) ->
  Sorted (fun a b => leb a b = true) (sort_by leb l).
Proof.
  intros Htot. unfold sort_by. induction l as [|x l IH]; simpl.
  - constructor.
  - now apply insert_by_sorted.
Qed.

(** X10: the tree shows the files the collector returns for the same
    directory and pattern, all of them and nothing else, in ascending
    order of their path components; building it walks the directory once
    and changes nothing. *)
Theorem file_tree_lists_collected_files :
  forall directory pat s,
    exists files tree,
      collect_files directory pat s
      = (inr files, (fst s, snd s ++ [Walk directory])) /\
      create_file_tree directory pat s
      = (inr tree, (fst s, snd s ++ [Walk directory])) /\
      tree_root tree = directory /\
      Permutation (tree_files tree) files /\
      Sorted (fun a b => path_leb a b = true) (tree_files tree).
Proof.
  intros directory pat s. unfold create_file_tree, collect_files.
  unfold bind, emit, ask, ret. cbn [fst snd].
  eexists. eexists. split; [reflexivity|]. split; [reflexivity|].
  cbn [tree_root tree_files]. split; [reflexivity|]. split.
  - apply sort_by_perm.
  - apply sort_by_sorted. intros a b. unfold path_leb. apply parts_leb_total.
Qed.

(** ** More on the report *)

Lemma list_sum_perm (l l' : list nat) :
  Permutation l l' -> list_sum l = list_sum l'.
Proof. induction 1; simpl; lia. Qed.

Lemma list_sum_cons (a : nat) (l : list nat) :
  list_sum (a :: l) = a + list_sum l.
Proof. reflexivity. Qed.

Lemma count_occ_sum_cons (x : key) (l ks : list key) :
  list_sum (map (count_occ key_eq_dec (x :: l)) ks)
  = count_occ key_eq_dec ks x + list_sum (map (count_occ key_eq_dec l) ks).
Proof.
  induction ks as [|k ks IH]; [reflexivity|].
  rewrite !map_cons, !list_sum_cons, IH. cbn [count_occ].
  destruct (key_eq_dec x k) as [E | E]; destruct (key_eq_dec k x) as [E' | E'];
    try congruence; lia.
Qed.

Lemma count_occ_sum (ks : list key) :
  NoDup ks ->
  forall l, incl l ks ->
            list_sum (map (count_occ key_eq_dec l) ks) = List.length l.
Proof.
  intros Hnd. induction l as [|x l IH]; intros Hin.
  - clear. induction ks as [|k ks IHk]; [reflexivity | exact IHk].
  - rewrite (count_occ_sum_cons x l ks), IH.
    + rewrite (proj1 (NoDup_count_occ' key_eq_dec ks) Hnd x); [reflexivity|].
      apply Hin. now left.
    + intros k Hk. apply Hin. now right.
Qed.

(** X11: the counts of the summary add up to the number of records, so the
    total printed under it agrees with it; the summary is empty only for
    no records at all. *)
Theorem report_counts_add_up :
  forall final_df,
    list_sum (map count (error_report final_df)) = List.length final_df /\
    (error_report final_df = [] <-> final_df = []).
Proof.
  intros final_df.
  assert (H : list_sum (map count (error_report final_df))
              = List.length final_df).
  { rewrite (list_sum_perm _ _
               (Permutation_map count (error_report_perm final_df))).
    rewrite map_map. cbn [count report_row].
    rewrite count_occ_sum.
    - apply length_map.
    - apply NoDup_nodup.
    - intros k Hk. now apply nodup_In. }
  split; [exact H|]. split.
  - intros E. rewrite E in H. simpl in H.
    destruct final_df; [reflexivity | discriminate].
  - intros ->. reflexivity.
Qed.

(** ** More on the top-level flow *)




End Checker.

(** * Closed instances

    The inputs below are ASCII, so the tables above U+007F play no part:
    they are taken empty. *)







Lemma no_headers_no_records_witness :
  parse_vale_output no_unicode_decimal no_unicode_alnum
    (lit "docs/guide.md" ++ [10%N] ++ lit "no finding here")
    (Some (lit "docs/guide.md")) = inr [].
Proof.
  apply (proj2 (no_headers_no_records no_unicode_decimal no_unicode_alnum)).
  intros l Hl. vm_compute in Hl.
  destruct Hl as [<- | [<- | []]]; vm_compute; reflexivity.
Defined.

Lemma one_result_per_file_witness :
  exists rs_before rs_after s',
    run_command_for_files unit
      (fun cmd w => if endswith (lit "bad.md") cmd
                    then (Failed (lit "no such command"), w)
                    else (Completed (lit " out ") [], w))
      [lit "ok(1).md"; lit "bad.md"; lit "last.md"] (lit "vale") (tt, []) =
    (inr (rs_before ++ (escape_parens (lit "bad.md"), [], lit "no such command")
                    :: rs_after), s') /\
    List.length rs_before = List.length [lit "ok(1).md"] /\
    List.length rs_after = List.length [lit "last.md"].
Proof.
  apply (proj2 (one_result_per_file unit
                  (fun cmd w => if endswith (lit "bad.md") cmd
                                then (Failed (lit "no such command"), w)
                                else (Completed (lit " out ") [], w))
                  [lit "ok(1).md"; lit "bad.md"; lit "last.md"] (lit "vale")
                  (tt, []))
               [lit "ok(1).md"] (lit "bad.md") [lit "last.md"]
               (lit "no such command") tt);
    vm_compute; reflexivity.
Defined.


(** Instances for the further properties. *)

Lemma strip_ansi_codes_plain_prefix_witness :
  strip_ansi_codes no_unicode_decimal
    (lit "plain " ++ [27%N] ++ lit "[1mbold")
  = lit "plain " ++
    strip_ansi_codes no_unicode_decimal ([27%N] ++ lit "[1mbold").
Proof.
  apply (strip_ansi_codes_plain_prefix no_unicode_decimal
           (lit "plain ") ([27%N] ++ lit "[1mbold")).
  reflexivity.
Defined.

Lemma strip_ansi_codes_removes_sequence_witness :
  strip_ansi_codes no_unicode_decimal
    ([27%N; 91%N] ++ lit "1;31" ++ [109%N] ++ lit "error")
  = strip_ansi_codes no_unicode_decimal (lit "error").
Proof.
  apply (strip_ansi_codes_removes_sequence no_unicode_decimal
           (lit "1;31") 109%N (lit "error")); reflexivity.
Defined.


Lemma command_line_determines_path_witness :
  lit "docs/a(1).md" = lit "docs/a(1).md".
Proof.
  apply (command_line_determines_path (lit "vale")). reflexivity.
Defined.

Lemma path_without_parens_unchanged_witness :
  escape_parens (lit "docs/guide.md") = lit "docs/guide.md" /\
  formatted_command (lit "vale") (lit "docs/guide.md")
  = lit "vale" ++ lit " " ++ lit "docs/guide.md".
Proof.
  apply (path_without_parens_unchanged (lit "vale") (lit "docs/guide.md")).
  reflexivity.
Defined.

Lemma completed_output_is_trimmed_witness :
  exists rs_before rs_after s',
    run_command_for_files unit
      (fun cmd w => (Completed (lit "  1:1 error  m  R  ") (lit " note "), w))
      [lit "a.md"; lit "b(2).md"] (lit "vale") (tt, []) =
    (inr (rs_before ++
          (escape_parens (lit "b(2).md"),
           strip (lit "  1:1 error  m  R  "), strip (lit " note "))
          :: rs_after), s') /\
    List.length rs_before = List.length [lit "a.md"] /\
    List.length rs_after = List.length (@nil str).
Proof.
  apply (completed_output_is_trimmed unit
           (fun cmd w => (Completed (lit "  1:1 error  m  R  ") (lit " note "), w))
           [lit "a.md"; lit "b(2).md"] (lit "vale") (tt, [])
           [lit "a.md"] (lit "b(2).md") [] _ _ tt); reflexivity.
Defined.


